(** * SIR model fitted to 7-day case numbers: the simulator and the fitter

    A shallow embedding of [main.py]: the derivative of the SIR system
    ([deriv]), the simulator ([Instance]), the forward model handed to
    the fitter ([fitting]) and the part of [main] that configures and
    runs the fit.

    Numbers are IEEE-754 binary64 values (Rocq's primitive floats), which
    is what Python's [float] and numpy's [float64] are.  The two library
    entry points the program calls, [scipy.integrate.odeint] and the
    minimiser behind [lmfit.Model.fit], are not part of the program: they
    are section variables, constrained only by the part of their
    documented behaviour that the program relies on. *)

From Stdlib Require Import String List Bool ZArith Lia Floats.
From ExtLib Require Import Structures.Monad Structures.MonadExc Data.Monads.EitherMonad.
Import ListNotations MonadNotation.
Local Open Scope monad_scope.
Local Open Scope float_scope.

(** ** Python outcomes *)

(** The exceptions that the modelled code, or a library on its behalf,
    can raise. *)
Inductive pyexn : Type :=
| IndexError          (* subscript out of range: [I[0]] on an empty row *)
| KeyError            (* a parameter name missing from the table *)
| ValueError          (* lmfit: non-finite model values, shapes that do not broadcast *)
| ZeroDivisionError.  (* Python's own [/] on a zero divisor *)

(** A Python computation either raises ([inl]) or returns ([inr]). *)
Definition py : Type -> Type := sum pyexn.

Definition returns {A} (c : py A) : Prop := exists v, c = inr v.
Definition raises {A} (c : py A) : Prop := exists e, c = inl e.

(** ** numpy helpers *)

Definition float_of_nat (k : nat) : float :=
  of_uint63 (Uint63.of_Z (Z.of_nat k)).

(** [np.arange(n)]: the integers below [n]; empty when [n <= 0]. *)
Definition np_arange (n : Z) : list float :=
  map float_of_nat (seq 0 (Z.to_nat n)).

(** One row of the solution array: the compartments S, I and R. *)
Abbreviation state := (float * float * float)%type.

Definition col_S (sol : list state) : list float := map (fun y => fst (fst y)) sol.
Definition col_I (sol : list state) : list float := map (fun y => snd (fst y)) sol.
Definition col_R (sol : list state) : list float := map (fun y => snd y) sol.

(** [S, I, R = sol.T]: the three columns of the solution array. *)
Definition unpack_T (sol : list state) : list float * list float * list float :=
  (col_S sol, col_I sol, col_R sol).

(** [a - b] on two one-dimensional arrays.  Arrays of different lengths
    (neither of length one) do not broadcast; in this program both
    operands always have [len(I)] elements. *)
Fixpoint np_sub (a b : list float) : py (list float) :=
  match a, b with
  | [], [] => ret []
  | x :: a', y :: b' => r <- np_sub a' b' ;; ret ((x - y) :: r)
  | _, _ => raise ValueError
  end.

(** [tuple[0]]. *)
Definition getitem0 (row : list float) : py float :=
  match row with
  | [] => raise IndexError
  | v :: _ => ret v
  end.

(** ** The derivative (main.py, lines 134-143) *)

(** [y] is a row of a numpy array, so [S] and [I] are [float64] scalars
    and every product and quotient below is a numpy scalar operation:
    IEEE-754 arithmetic in which a zero divisor gives [nan] or an
    infinity (and a warning), not an exception.  Python parses
    [-b*S*I / N] as [(((-b)*S)*I)/N]. *)
Definition deriv (y : state) (t N b g : float) : state :=
  let '(S_t, I_t, R_t) := y in
  let dSdt := - b * S_t * I_t / N in
  let dIdt := b * S_t * I_t / N - g * I_t in
  let dRdt := g * I_t in
  (dSdt, dIdt, dRdt).

(** ** A reference integrator *)

(** Explicit Euler on the output grid.  It stands in for the library
    integrator wherever a concrete run is evaluated. *)
Definition axpy (h : float) (d y : state) : state :=
  let '(d1, d2, d3) := d in
  let '(y1, y2, y3) := y in
  (y1 + h * d1, y2 + h * d2, y3 + h * d3).

Fixpoint euler_steps (func : state -> float -> state) (y : state) (t : float)
    (ts : list float) : list state :=
  match ts with
  | [] => []
  | t' :: ts' =>
      let y' := axpy (t' - t) (func y t) y in
      y' :: euler_steps func y' t' ts'
  end.

(** The crudest integrator that honours the interface: it repeats the
    initial state at every output time. *)
Definition hold_odeint (func : state -> float -> state) (y0 : state)
    (ts : list float) : py (list state) :=
  ret (map (fun _ => y0) ts).

Definition euler_odeint (func : state -> float -> state) (y0 : state)
    (ts : list float) : py (list state) :=
  match ts with
  | [] => ret []
  | t0 :: ts' => ret (y0 :: euler_steps func y0 t0 ts')
  end.

(** ** The simulator and the forward model *)

Section Simulator.

(** [scipy.integrate.odeint(func, y0, t, args)], with [args] already
    applied to [func]. *)
Variable odeint : (state -> float -> state) -> state -> list float -> py (list state).

(** main.py, lines 124-148. *)
Definition Instance (beta gamma S_0 I_0 R_0 : float) (num_days : Z)
  : py (list float * list float * list float) :=
  let N := S_0 + I_0 + R_0 in
  let t := np_arange num_days in
  let y_0 := (S_0, I_0, R_0) in
  sol <- odeint (fun y t => deriv y t N beta gamma) y_0 t ;;
  ret (unpack_T sol).

(** main.py, lines 150-157.  [1/7] is Python's true division of two
    integer literals. *)
Definition fitting (x : list float) (beta I_0 N num_days : float) : py (list float) :=
  '(_, I_t, _) <- Instance beta (1 / 7) (N - I_0) I_0 0 (Z.of_nat (length x)) ;;
  ret I_t.

End Simulator.

(** What the program relies on from [odeint]: on the grid of one or more
    days it returns (trouble during the integration is reported as a
    warning, and the callback [deriv] raises nothing); the array it
    returns has one row per output time; the first row is the initial
    state. *)
Record odeint_contract
    (odeint : (state -> float -> state) -> state -> list float -> py (list state))
  : Prop := {
  odeint_returns : forall func y0 n,
    (1 <= n)%Z -> returns (odeint func y0 (np_arange n));
  odeint_shape : forall func y0 ts sol,
    odeint func y0 ts = inr sol -> length sol = length ts;
  odeint_first : forall func y0 ts sol,
    odeint func y0 ts = inr sol -> ts <> [] -> hd_error sol = Some y0
}.

(** ** lmfit: the parameter table *)

(** [lmfit.Parameter]: the fields the program sets. *)
Record lmfit_Parameter : Type := mkParameter {
  value : float;
  vmin : float;    (* lmfit's [min] *)
  vmax : float;    (* lmfit's [max] *)
  vary : bool
}.

(** [lmfit.Parameters] is an ordered dictionary. *)
Definition lmfit_Parameters : Type := list (string * lmfit_Parameter).

Fixpoint assoc {A} (name : string) (d : list (string * A)) : option A :=
  match d with
  | [] => None
  | (k, v) :: d' => if String.eqb name k then Some v else assoc name d'
  end.

(** [Parameter(name)]: unbounded and free. *)
Definition default_Parameter : lmfit_Parameter :=
  {| value := neg_infinity; vmin := neg_infinity; vmax := infinity; vary := true |}.

(** Assigning [par.value] keeps the value inside the bounds. *)
Definition set_value (v : float) (p : lmfit_Parameter) : lmfit_Parameter :=
  let v' := if vmax p <? v then vmax p else if v <? vmin p then vmin p else v in
  {| value := v'; vmin := vmin p; vmax := vmax p; vary := vary p |}.

Definition set_vary (b : bool) (p : lmfit_Parameter) : lmfit_Parameter :=
  {| value := value p; vmin := vmin p; vmax := vmax p; vary := b |}.

(** [lmfit.Model(fitting)]: the first argument of [fitting], [x], is the
    independent variable; the other arguments are the parameters. *)
Definition param_names : list string :=
  ["beta"; "I_0"; "N"; "num_days"]%string.

(** [model.make_params] with keyword arguments: one parameter per name,
    taken from the hint when there is one, then given the keyword's
    value. *)
Definition make_params (hints : list (string * lmfit_Parameter)) (kwargs : list (string * float))
  : lmfit_Parameters :=
  map (fun name =>
         let par := match assoc name hints with Some h => h | None => default_Parameter end in
         let par := match assoc name kwargs with Some v => set_value v par | None => par end in
         (name, par))
      param_names.

(** [params[name].vary = b]. *)
Fixpoint setitem_vary (name : string) (b : bool) (params : lmfit_Parameters)
  : py lmfit_Parameters :=
  match params with
  | [] => raise KeyError
  | (k, p) :: rest =>
      if String.eqb name k then ret ((k, set_vary b p) :: rest)
      else rest' <- setitem_vary name b rest ;; ret ((k, p) :: rest')
  end.

Definition getval (name : string) (params : lmfit_Parameters) : py float :=
  match assoc name params with
  | Some p => ret (value p)
  | None => raise KeyError
  end.

(** The free variables of a fit are the parameters with [vary = True],
    in table order; each comes with its start value and its bounds. *)
Definition bounds : Type := float * float * float.   (* start, min, max *)

Definition box_of (params : lmfit_Parameters) : list bounds :=
  map (fun np => (value (snd np), vmin (snd np), vmax (snd np)))
      (filter (fun np => vary (snd np)) params).

(** The table in which the free variables have the values [vals]. *)
Fixpoint assign (vals : list float) (params : lmfit_Parameters) : lmfit_Parameters :=
  match params with
  | [] => []
  | (k, p) :: rest =>
      if vary p then
        match vals with
        | v :: vals' =>
            (k, {| value := v; vmin := vmin p; vmax := vmax p; vary := true |})
              :: assign vals' rest
        | [] => (k, p) :: assign [] rest
        end
      else (k, p) :: assign vals rest
  end.

Definition in_bounds (v : float) (b : bounds) : bool :=
  let '(_, lo, hi) := b in (lo <=? v) && (v <=? hi).

Fixpoint in_box (vals : list float) (box : list bounds) : bool :=
  match vals, box with
  | [], [] => true
  | v :: vals', b :: box' => in_bounds v b && in_box vals' box'
  | _, _ => false
  end.

(** Bounds a search can start from: both are numbers and the lower one
    does not exceed the upper one. *)
Definition wf_box (box : list bounds) : bool :=
  forallb (fun b => let '(_, lo, hi) := b in in_bounds lo b && in_bounds hi b) box.

(** The methods of [lmfit.minimize] that matter here: [powell] is what
    [main] asks for; [differential_evolution] draws random numbers. *)
Inductive method : Type := Leastsq | Nelder | Powell | DifferentialEvolution.

(** [lmfit.model.ModelResult]: the best values, the model at the best
    values and the optimiser's convergence flag. *)
Record ModelResult : Type := mkModelResult {
  values : list (string * float);
  best_fit : list float;
  success : bool
}.


(** ** The fitter *)

Section Fitter.

Variable odeint : (state -> float -> state) -> state -> list float -> py (list state).

(** The interpreter state outside a call's arguments, such as numpy's
    global random generator. *)
Variable world : Type.

(** The minimiser behind [Model.fit]: given the method, the residual
    as a function of the free variables and their bounds, it returns
    the best point and whether it converged. *)
Variable minimize :
  method -> (list float -> py (list float)) -> list bounds -> world ->
  py (list float * bool) * world.

(** [model.eval(params, x=x)]: calls [fitting] with the parameters
    passed by name. *)
Definition eval (params : lmfit_Parameters) (x : list float) : py (list float) :=
  beta <- getval "beta" params ;;
  I_0 <- getval "I_0" params ;;
  N <- getval "N" params ;;
  num_days <- getval "num_days" params ;;
  fitting odeint x beta I_0 N num_days.

(** The residual the minimiser sees: model minus data. *)
Definition residual (params : lmfit_Parameters) (data x : list float) (vals : list float)
  : py (list float) :=
  model <- eval (assign vals params) x ;;
  np_sub model data.

(** [model.fit(data, params, method=..., x=...)]. *)
Definition Model_fit (data : list float) (params : lmfit_Parameters) (meth : method)
    (x : list float) (w : world) : py ModelResult * world :=
  let '(out, w') := minimize meth (residual params data x) (box_of params) w in
  (best <- out ;;
   let best_params := assign (fst best) params in
   fit <- eval best_params x ;;
   ret {| values := map (fun np => (fst np, value (snd np))) best_params;
          best_fit := fit;
          success := snd best |},
   w').

(** main.py, lines 188-193: the parameter table of one region. *)
Definition main_params (I : list float) (N : float) : py lmfit_Parameters :=
  let hints := [("beta"%string, {| value := - 0; vmin := 0; vmax := 1; vary := true |})] in
  I_0 <- getitem0 I ;;
  let params :=
    make_params hints
      [("I_0"%string, I_0); ("N"%string, N); ("num_days"%string, float_of_nat (length I))] in
  params <- setitem_vary "N" false params ;;
  params <- setitem_vary "I_0" false params ;;
  setitem_vary "num_days" false params.

(** main.py, lines 188-195: the fit of one region, for its row [I] of
    the sheet and its population [N]. *)
Definition main_fit (I : list float) (N : float) (w : world) : py ModelResult * world :=
  match main_params I N with
  | inl e => (inl e, w)
  | inr params => Model_fit I params Powell (np_arange (Z.of_nat (length I))) w
  end.

End Fitter.

Arguments Model_fit odeint {world} minimize data params meth x w.
Arguments main_fit odeint {world} minimize I N w.

(** What the program relies on from the minimiser: the point it returns
    respects the bounds; it returns whenever the bounds are well formed
    and the residual is finite at every point within them; [powell]
    neither reads nor changes the state of the interpreter. *)
Record minimize_contract {world : Type}
    (minimize : method -> (list float -> py (list float)) -> list bounds -> world ->
                py (list float * bool) * world)
  : Prop := {
  minimize_in_box : forall m res box w best w',
    minimize m res box w = (inr best, w') -> in_box (fst best) box = true;
  minimize_returns : forall m res box w,
    wf_box box = true ->
    (forall vals, in_box vals box = true ->
                  exists r, res vals = inr r /\ forallb is_finite r = true) ->
    returns (fst (minimize m res box w));
  powell_keeps_world : forall res box w, snd (minimize Powell res box w) = w;
  powell_ignores_world : forall res box w1 w2,
    fst (minimize Powell res box w1) = fst (minimize Powell res box w2)
}.

(** ** A reference minimiser *)

(** A one-probe search, standing in for the library minimiser wherever a
    concrete run is evaluated: it evaluates the residual at the start
    point (moved to the lower bound where the start value is outside
    the bounds) and returns that point.  Its [differential_evolution]
    starts from the upper corner or from the start point, as the random
    state decides. *)
Definition start_point (box : list bounds) : list float :=
  map (fun b => let '(s, lo, _) := b in if in_bounds s b then s else lo) box.

Definition upper_corner (box : list bounds) : list float :=
  map (fun b => let '(_, _, hi) := b in hi) box.

Definition probe (res : list float -> py (list float)) (box : list bounds)
    (vals : list float) : py (list float * bool) :=
  if in_box vals box then
    r <- res vals ;;
    if forallb is_finite r then ret (vals, true) else raise ValueError
  else raise ValueError.

Definition probe_minimize (m : method) (res : list float -> py (list float))
    (box : list bounds) (seed : Z) : py (list float * bool) * Z :=
  match m with
  | DifferentialEvolution =>
      (probe res box (if Z.even seed then upper_corner box else start_point box),
       (seed * 6364136223846793005 + 1442695040888963407) mod 2 ^ 64)%Z
  | _ => (probe res box (start_point box), seed)
  end.

(** ** Vocabulary of the statements *)

(** The table [main] builds for a row that starts with [i0]. *)
Definition region_params (i0 N num_days : float) : lmfit_Parameters :=
  [("beta"%string, {| value := - 0; vmin := 0; vmax := 1; vary := true |});
   ("I_0"%string, {| value := i0; vmin := neg_infinity; vmax := infinity; vary := false |});
   ("N"%string, {| value := N; vmin := neg_infinity; vmax := infinity; vary := false |});
   ("num_days"%string,
    {| value := num_days; vmin := neg_infinity; vmax := infinity; vary := false |})].

(** The value of [beta] in the table once the minimiser has proposed
    [vals]: the proposal, or the start value when there is none. *)
Definition candidate (vals : list float) : float :=
  match vals with
  | [] => - 0
  | b :: _ => b
  end.

Definition in_unit_interval (b : float) : bool := (0 <=? b) && (b <=? 1).

(** ** The sheet and the loop of [main] (main.py, lines 159-203) *)

(** A cell of the sheet as [iter_rows(values_only=True)] yields it: a
    text, a number, or [None] for an empty cell. *)
Inductive cell : Type :=
| Text (s : string)
| Number (v : float)
| Blank.

(** [seq[k]] on a list or a tuple. *)
Definition getitem {A} (l : list A) (k : nat) : py A :=
  match nth_error l k with
  | Some a => ret a
  | None => raise IndexError
  end.

(** [seq[lo:hi]]: a slice never raises. *)
Definition slice {A} (lo hi : nat) (l : list A) : list A :=
  firstn (hi - lo)%nat (skipn lo l).

(** The population table of [main], lines 177-178, looked up by the
    first cell of the row; a cell that is no key raises [KeyError]. *)
Definition population (state : cell) : py float :=
  match state with
  | Text s =>
      match assoc s [("Bayern"%string, 13.076721e6); ("Berlin"%string, 3.748148e6);
                     ("Brandenburg"%string, 2.511917e6)] with
      | Some N => ret N
      | None => raise KeyError
      end
  | _ => raise KeyError
  end.

(** The observations as numbers, when every cell is one. *)
Fixpoint numbers (cells : list cell) : option (list float) :=
  match cells with
  | [] => Some []
  | Number v :: cells' => option_map (cons v) (numbers cells')
  | _ :: _ => None
  end.

(** How an iteration of the loop ends: with a fit, with an exception,
    or, for observations that are not all numbers, in a way that
    depends on how numpy and lmfit treat such cells, which is not
    modelled. *)
Inductive region_end : Type :=
| Fitted (result : ModelResult)
| Raised (e : pyexn)
| NotModelled.

(** How the loop ends. *)
Inductive run_end : Type :=
| Completed
| Failed (e : pyexn)
| Unknown.

Section Main.

Variable odeint : (state -> float -> state) -> state -> list float -> py (list state).
Variable world : Type.
Variable minimize :
  method -> (list float -> py (list float)) -> list bounds -> world ->
  py (list float * bool) * world.

(** main.py, lines 174-181: what iteration [i] reads from the sheet. *)
Definition region_input (rows : list (list cell)) (i : nat) : py (list cell * float) :=
  let row_number := (6 + i)%nat in
  row <- getitem rows row_number ;;
  let I := slice 1 366 row in
  state <- getitem row 0 ;;
  N <- population state ;;
  row4 <- getitem rows 4 ;;
  let days := slice 1 366 row4 in
  ret (I, N).

(** main.py, lines 174-195: iteration [i] of the loop, up to the fit
    (an empty row of observations fails in [main_fit], at [I[0]]).  The
    figure and the plots are not modelled. *)
Definition main_region (rows : list (list cell)) (i : nat) (w : world)
  : region_end * world :=
  match region_input rows i with
  | inl e => (Raised e, w)
  | inr (I_r, N) =>
      match numbers I_r with
      | None => (NotModelled, w)
      | Some obs =>
          match main_fit odeint minimize obs N w with
          | (inl e, w') => (Raised e, w')
          | (inr result, w') => (Fitted result, w')
          end
      end
  end.

(** The loop over the regions [todo]: how it ends, and what it has
    printed by then ([result.values] of each region fitted). *)
Fixpoint main_loop (rows : list (list cell)) (todo : list nat) (w : world)
  : run_end * list (list (string * float)) * world :=
  match todo with
  | [] => (Completed, [], w)
  | i :: todo' =>
      match main_region rows i w with
      | (Fitted result, w') =>
          let '(e, printed, w'') := main_loop rows todo' w' in
          (e, values result :: printed, w'')
      | (Raised e, w') => (Failed e, [], w')
      | (NotModelled, w') => (Unknown, [], w')
      end
  end.

(** main.py, lines 159-203, for the rows of the sheet: [range(3)]. *)
Definition main (rows : list (list cell)) (w : world)
  : run_end * list (list (string * float)) * world :=
  main_loop rows (seq 0 3) w.

End Main.

Arguments main_region odeint {world} minimize rows i w.
Arguments main_loop odeint {world} minimize rows todo w.
Arguments main odeint {world} minimize rows w.

(** A small sheet: the regions are rows 6 to 8, the observations start
    in column 1. *)
Definition sample_sheet : list (list cell) :=
  [[]; []; []; []; [Text "days"; Number 1; Number 2]; [];
   [Text "Bayern"; Number 10; Number 12];
   [Text "Berlin"; Number 5; Number 6];
   [Text "Brandenburg"; Number 3; Number 3]].

(** A value that is not below zero: a zero, a positive number, plus
    infinity, or no number at all. *)
Definition not_negative (x : spec_float) : Prop :=
  match x with
  | S754_zero _ | S754_nan => True
  | S754_infinity s | S754_finite s _ _ => s = false
  end.

(** What iteration [i] of the loop can see of the sheet: the first 366
    cells of row [6 + i]. *)
Definition region_view (rows : list (list cell)) (i : nat) : option (list cell) :=
  option_map (firstn 366) (nth_error rows (6 + i)).

(** * Properties *)

(** ** Binary64 facts *)

(** A finite float is a zero or a normalised mantissa and exponent. *)
Lemma finite_cases x :
  is_finite x = true ->
  (exists s, Prim2SF x = S754_zero s) \/ (exists s m e, Prim2SF x = S754_finite s m e).
Proof.
  unfold is_finite, is_nan, is_infinity.
  rewrite !eqb_spec, abs_spec.
  destruct (Prim2SF x) as [s|s| |s m e] eqn:E; intros H.
  - left. now exists s.
  - exfalso. revert H. destruct s; now vm_compute.
  - exfalso. revert H. now vm_compute.
  - right. now exists s, m, e.
Qed.

Lemma sub_self x : is_finite x = true -> x - x = 0.
Proof.
  intros H. apply Prim2SF_inj. rewrite sub_spec.
  destruct (finite_cases x H) as [[s E]|(s & m & e & E)]; rewrite E.
  - now destruct s.
  - unfold SF64sub, SFsub. cbv zeta.
    rewrite Z.sub_diag. reflexivity.
Qed.

Lemma is_nan_spec x :
  is_nan x = match Prim2SF x with S754_nan => true | _ => false end.
Proof.
  unfold is_nan. rewrite eqb_spec.
  destruct (Prim2SF x) as [s|s| |s m e]; try (destruct s; reflexivity); try reflexivity.
  unfold SFeqb, SFcompare.
  change (IntDef.Z.compare e e) with (Z.compare e e). rewrite Z.compare_refl.
  change (Pcompare m m Eq) with (Pos.compare m m). rewrite Pos.compare_refl.
  now destruct s.
Qed.


Lemma ltb_infinity v : (infinity <? v) = false.
Proof.
  rewrite ltb_spec. destruct (Prim2SF v) as [s|s| |s m e]; try destruct s; reflexivity.
Qed.

Lemma ltb_neg_infinity v : (v <? neg_infinity) = false.
Proof.
  rewrite ltb_spec. destruct (Prim2SF v) as [s|s| |s m e]; try destruct s; reflexivity.
Qed.

Lemma not_nan_cases x :
  is_nan x = false ->
  (exists s, Prim2SF x = S754_zero s) \/
  (exists s, Prim2SF x = S754_infinity s) \/
  (exists s m e, Prim2SF x = S754_finite s m e).
Proof.
  unfold is_nan. rewrite eqb_spec.
  destruct (Prim2SF x) as [s|s| |s m e]; intros H; eauto 6. discriminate.
Qed.

(** Rounding is symmetric: the sign goes through products and
    quotients. *)
Lemma binary_round_aux_opp s m e l :
  binary_round_aux prec emax (negb s) m e l = SFopp (binary_round_aux prec emax s m e l).
Proof.
  unfold binary_round_aux.
  destruct (shr_fexp prec emax m e l) as [mrs' e'].
  destruct (shr_fexp prec emax _ e' loc_Exact) as [mrs'' e''].
  destruct (shr_m mrs''); [reflexivity| |reflexivity].
  now destruct (e'' <=? emax - prec)%Z.
Qed.

Lemma SFmul_opp x y : SF64mul (SFopp x) y = SFopp (SF64mul x y).
Proof.
  unfold SF64mul.
  destruct x as [sx|sx| |sx mx ex], y as [sy|sy| |sy my ey]; cbn [SFopp SFmul];
    try reflexivity; try (now destruct sx, sy).
  rewrite <- binary_round_aux_opp. now destruct sx, sy.
Qed.

Lemma SFdiv_opp x y : SF64div (SFopp x) y = SFopp (SF64div x y).
Proof.
  unfold SF64div.
  destruct x as [sx|sx| |sx mx ex], y as [sy|sy| |sy my ey]; cbn [SFopp SFdiv];
    try reflexivity; try (now destruct sx, sy).
  destruct (SFdiv_core_binary prec emax (Z.pos mx) ex (Z.pos my) ey) as [[mz ez] lz].
  rewrite <- binary_round_aux_opp. now destruct sx, sy.
Qed.

(** ** The derivative *)

(** The derivative is an exchange of two fluxes, exactly: what leaves S
    by infection enters I, what leaves I by recovery enters R. *)
Lemma deriv_fluxes S_t I_t R_t t N b g :
  deriv (S_t, I_t, R_t) t N b g =
  (- (b * S_t * I_t / N), b * S_t * I_t / N - g * I_t, g * I_t).
Proof.
  unfold deriv. f_equal. f_equal.
  apply Prim2SF_inj.
  now rewrite div_spec, !mul_spec, !opp_spec, !SFmul_opp, SFdiv_opp, <- !mul_spec, <- div_spec.
Qed.

(** X4: without transmission the infection flux is a zero, for finite
    compartments and a population that is a number other than zero:
    the derivative of S is a zero and that of I is a zero minus the
    recovery flux. *)
Lemma deriv_beta_zero S_t I_t R_t t N g :
  is_finite S_t = true -> is_finite I_t = true -> is_nan N = false -> (N =? 0) = false ->
  exists z, (z =? 0) = true /\
            deriv (S_t, I_t, R_t) t N 0 g = (- z, z - g * I_t, g * I_t).
Proof.
  intros HS HI HN HN0. exists (0 * S_t * I_t / N). split; [|apply deriv_fluxes].
  rewrite eqb_spec in HN0. rewrite eqb_spec, div_spec, !mul_spec.
  destruct (finite_cases S_t HS) as [[s ->]|(s & m & e & ->)];
    destruct (finite_cases I_t HI) as [[s' ->]|(s' & m' & e' & ->)];
    destruct (not_nan_cases N HN) as [[s'' E]|[[s'' E]|(s'' & m'' & e'' & E)]];
    rewrite E in *; destruct s, s', s''; try reflexivity; discriminate.
Qed.

(** With an empty population the quotient in [deriv] is [0/0] (or a
    [nan] already, when [b] is not finite). *)
Lemma deriv_zero_population_nan t b g :
  let '(dSdt, dIdt, _) := deriv (0, 0, 0) t (0 + 0 + 0) b g in
  is_nan dSdt = true /\ is_nan dIdt = true.
Proof.
  unfold deriv.
  assert (E : Prim2SF (b * 0 * 0 / (0 + 0 + 0)) = S754_nan).
  { rewrite div_spec, !mul_spec.
    destruct (Prim2SF b) as [s|s| |s m e]; reflexivity. }
  assert (E' : Prim2SF (- b * 0 * 0 / (0 + 0 + 0)) = S754_nan).
  { rewrite div_spec, !mul_spec, opp_spec.
    destruct (Prim2SF b) as [s|s| |s m e]; reflexivity. }
  split; unfold is_nan; rewrite eqb_spec.
  - now rewrite E'.
  - rewrite sub_spec, E. reflexivity.
Qed.

(** ** Lists and outcomes *)

Lemma bind_inr {A B} (v : A) (k : A -> py B) : (x <- (inr v : py A) ;; k x) = k v.
Proof. reflexivity. Qed.

Lemma bind_inl {A B} (e : pyexn) (k : A -> py B) : (x <- (inl e : py A) ;; k x) = inl e.
Proof. reflexivity. Qed.

Lemma returns_not_raises {A} (c : py A) : returns c -> ~ raises c.
Proof. intros [v ->] [e E]. discriminate. Qed.

Lemma hd_error_map {A B} (f : A -> B) l : hd_error (map f l) = option_map f (hd_error l).
Proof. now destruct l. Qed.

Lemma np_arange_length n : length (np_arange n) = Z.to_nat n.
Proof. unfold np_arange. now rewrite length_map, length_seq. Qed.

Lemma np_arange_nonempty n : (1 <= n)%Z -> np_arange n <> [].
Proof.
  intros H E. apply (f_equal (@length float)) in E.
  rewrite np_arange_length in E. simpl in E. lia.
Qed.

(** ** The reference integrators honour the interface *)

Lemma euler_steps_length func y t ts : length (euler_steps func y t ts) = length ts.
Proof.
  revert y t. induction ts as [|t' ts IH]; intros y t; simpl; [reflexivity|].
  now rewrite IH.
Qed.

Lemma euler_odeint_contract : odeint_contract euler_odeint.
Proof.
  split.
  - intros func y0 n Hn. pose proof (np_arange_nonempty n Hn) as Hne.
    unfold euler_odeint. destruct (np_arange n); [congruence|]. eexists. reflexivity.
  - intros func y0 [|t0 ts] sol H; injection H as <-; simpl; [reflexivity|].
    now rewrite euler_steps_length.
  - intros func y0 [|t0 ts] sol H Hne; [congruence|]. injection H as <-. reflexivity.
Qed.

Lemma hold_odeint_contract : odeint_contract hold_odeint.
Proof.
  split.
  - intros func y0 n _. eexists. reflexivity.
  - intros func y0 ts sol H. injection H as <-. apply length_map.
  - intros func y0 [|t0 ts] sol H Hne; [congruence|]. injection H as <-. reflexivity.
Qed.

(** ** The simulator *)

Lemma Instance_inr od beta gamma S_0 I_0 R_0 num_days out :
  Instance od beta gamma S_0 I_0 R_0 num_days = inr out <->
  exists sol,
    od (fun y t => deriv y t (S_0 + I_0 + R_0) beta gamma) (S_0, I_0, R_0) (np_arange num_days)
      = inr sol /\ out = unpack_T sol.
Proof.
  unfold Instance.
  destruct (od _ _ _) as [e|sol] eqn:E.
  - rewrite bind_inl. split; [discriminate|]. intros (sol & H & _). discriminate.
  - rewrite bind_inr. split.
    + intros H. injection H as <-. now exists sol.
    + intros (sol' & H & ->). now injection H as ->.
Qed.

(** On one day or more the simulator returns the integrator's array,
    whatever the parameters and the initial values. *)
Lemma Instance_solution od (H : odeint_contract od) beta gamma S_0 I_0 R_0 num_days :
  (1 <= num_days)%Z ->
  exists sol,
    Instance od beta gamma S_0 I_0 R_0 num_days = inr (unpack_T sol) /\
    length sol = Z.to_nat num_days /\
    hd_error sol = Some (S_0, I_0, R_0).
Proof.
  intros Hd.
  destruct (odeint_returns od H (fun y t => deriv y t (S_0 + I_0 + R_0) beta gamma)
              (S_0, I_0, R_0) num_days Hd) as [sol E].
  exists sol. split; [|split].
  - apply Instance_inr. now exists sol.
  - etransitivity; [exact (odeint_shape od H _ _ _ _ E)|]. apply np_arange_length.
  - exact (odeint_first od H _ _ _ _ E (np_arange_nonempty num_days Hd)).
Qed.

Lemma Instance_returns od (H : odeint_contract od) beta gamma S_0 I_0 R_0 num_days :
  (1 <= num_days)%Z -> returns (Instance od beta gamma S_0 I_0 R_0 num_days).
Proof.
  intros Hd. destruct (Instance_solution od H beta gamma S_0 I_0 R_0 num_days Hd) as (sol & E & _).
  now exists (unpack_T sol).
Qed.

(** [fitting] as the call of the integrator it amounts to. *)
Lemma fitting_unfold od x beta I_0 N num_days :
  fitting od x beta I_0 N num_days =
  (sol <- od (fun y t => deriv y t (N - I_0 + I_0 + 0) beta (1 / 7))
             (N - I_0, I_0, 0) (np_arange (Z.of_nat (length x))) ;;
   ret (col_I sol)).
Proof.
  unfold fitting, Instance. destruct (od _ _ _); reflexivity.
Qed.

(** On a one-point grid the forward model is the first observation. *)
Lemma fitting_one_point od (Ho : odeint_contract od) beta i0 N num_days :
  fitting od (np_arange 1) beta i0 N num_days = inr [i0].
Proof.
  rewrite fitting_unfold.
  change (Z.of_nat (length (np_arange 1))) with 1%Z.
  destruct (odeint_returns od Ho (fun y t => deriv y t (N - i0 + i0 + 0) beta (1 / 7))
              (N - i0, i0, 0) 1%Z (Z.le_refl 1)) as [sol E].
  rewrite E, bind_inr.
  pose proof (odeint_shape od Ho _ _ _ _ E) as Hlen.
  assert (Hne : np_arange 1 <> []) by discriminate.
  pose proof (odeint_first od Ho _ _ _ _ E Hne) as Hhd.
  destruct sol as [|y [|y' sol]]; try discriminate.
  injection Hhd as ->. reflexivity.
Qed.

(** ** The parameter table of [main] *)

(** Between infinite bounds the value setter changes nothing. *)
Lemma set_value_unbounded v :
  set_value v default_Parameter =
  {| value := v; vmin := neg_infinity; vmax := infinity; vary := true |}.
Proof.
  unfold set_value, default_Parameter. cbn.
  now rewrite ltb_infinity, ltb_neg_infinity.
Qed.

Lemma main_params_cons i0 rest N :
  main_params (i0 :: rest) N = inr (region_params i0 N (float_of_nat (length (i0 :: rest)))).
Proof.
  unfold main_params, make_params, param_names.
  cbn -[float_of_nat set_value default_Parameter length].
  rewrite !set_value_unbounded. reflexivity.
Qed.

Lemma assign_region vals i0 N nd :
  assign vals (region_params i0 N nd) =
  [("beta"%string, {| value := candidate vals; vmin := 0; vmax := 1; vary := true |});
   ("I_0"%string, {| value := i0; vmin := neg_infinity; vmax := infinity; vary := false |});
   ("N"%string, {| value := N; vmin := neg_infinity; vmax := infinity; vary := false |});
   ("num_days"%string,
    {| value := nd; vmin := neg_infinity; vmax := infinity; vary := false |})].
Proof. destruct vals; reflexivity. Qed.

Lemma eval_region od vals i0 N nd x :
  eval od (assign vals (region_params i0 N nd)) x = fitting od x (candidate vals) i0 N nd.
Proof. rewrite assign_region. reflexivity. Qed.

Lemma box_of_region i0 N nd : box_of (region_params i0 N nd) = [(- 0, 0, 1)].
Proof. reflexivity. Qed.

Lemma in_box_unit vals :
  in_box vals [(- 0, 0, 1)] = true -> exists b, vals = [b] /\ in_unit_interval b = true.
Proof.
  destruct vals as [|b [|b' vals]]; cbn; try discriminate.
  - rewrite andb_true_r. intros H. now exists b.
  - now rewrite andb_false_r.
Qed.

(** ** The reference minimiser honours the interface *)

Lemma start_point_in_box box : wf_box box = true -> in_box (start_point box) box = true.
Proof.
  induction box as [|[[s lo] hi] box IH]; [reflexivity|].
  cbn [wf_box forallb]. intros H.
  apply andb_true_iff in H. destruct H as [Hb Hbox].
  apply andb_true_iff in Hb. destruct Hb as [Hb _].
  change (start_point ((s, lo, hi) :: box))
    with ((if in_bounds s (s, lo, hi) then s else lo) :: start_point box).
  cbn [in_box]. rewrite (IH Hbox), andb_true_r.
  destruct (in_bounds s (s, lo, hi)) eqn:E; [exact E | exact Hb].
Qed.

Lemma upper_corner_in_box box : wf_box box = true -> in_box (upper_corner box) box = true.
Proof.
  induction box as [|[[s lo] hi] box IH]; [reflexivity|].
  cbn [wf_box forallb]. intros H.
  apply andb_true_iff in H. destruct H as [Hb Hbox].
  apply andb_true_iff in Hb. destruct Hb as [_ Hb].
  change (upper_corner ((s, lo, hi) :: box)) with (hi :: upper_corner box).
  cbn [in_box]. now rewrite (IH Hbox), Hb.
Qed.

Lemma probe_inr res box vals best :
  probe res box vals = inr best -> in_box (fst best) box = true.
Proof.
  unfold probe. destruct (in_box vals box) eqn:E; [|discriminate].
  destruct (res vals) as [e|r]; cbn; [discriminate|].
  destruct (forallb is_finite r); cbn; [|discriminate].
  intros H. injection H as <-. exact E.
Qed.

Lemma probe_returns res box vals :
  in_box vals box = true ->
  (exists r, res vals = inr r /\ forallb is_finite r = true) ->
  returns (probe res box vals).
Proof.
  intros Hin (r & Hr & Hfin). unfold probe. rewrite Hin, Hr. cbn. rewrite Hfin.
  eexists. reflexivity.
Qed.

Lemma probe_minimize_contract : minimize_contract probe_minimize.
Proof.
  split.
  - intros m res box w best w' H.
    destruct m; cbn in H; injection H as H _; exact (probe_inr _ _ _ _ H).
  - intros m res box w Hwf Hres.
    pose proof (start_point_in_box box Hwf) as Hs.
    pose proof (upper_corner_in_box box Hwf) as Hu.
    destruct m; cbn; [ | | | destruct (Z.even w)]; apply probe_returns; auto.
  - reflexivity.
  - reflexivity.
Qed.

(** ** The fit of one region *)

Lemma main_fit_cons od world mz i0 rest N (w : world) :
  main_fit od mz (i0 :: rest) N w =
  Model_fit od mz (i0 :: rest) (region_params i0 N (float_of_nat (length (i0 :: rest))))
    Powell (np_arange (Z.of_nat (length (i0 :: rest)))) w.
Proof. unfold main_fit. now rewrite main_params_cons. Qed.

(** What a returned fit looks like. *)
Lemma main_fit_inr od world mz (Hm : minimize_contract mz) i0 rest N (w w' : world) r :
  main_fit od mz (i0 :: rest) N w = (inr r, w') ->
  exists b ok fit,
    in_unit_interval b = true /\
    fitting od (np_arange (Z.of_nat (length (i0 :: rest)))) b i0 N
      (float_of_nat (length (i0 :: rest))) = inr fit /\
    r = {| values := [("beta"%string, b); ("I_0"%string, i0); ("N"%string, N);
                      ("num_days"%string, float_of_nat (length (i0 :: rest)))];
           best_fit := fit; success := ok |}.
Proof.
  rewrite main_fit_cons. unfold Model_fit. rewrite box_of_region.
  destruct (mz Powell _ _ w) as [[e|[best ok]] w''] eqn:E;
    [rewrite bind_inl; discriminate|].
  rewrite bind_inr. cbn [fst snd].
  destruct (in_box_unit best (minimize_in_box mz Hm _ _ _ _ _ _ E)) as (b & -> & Hb).
  rewrite eval_region, assign_region. cbn [candidate].
  destruct (fitting od _ b i0 N _) as [e|fit] eqn:F;
    [rewrite bind_inl; discriminate|].
  rewrite bind_inr. intros H. injection H as <- _. now exists b, ok, fit.
Qed.

(** The fit returns when the residual is finite all over the interval. *)
Lemma main_fit_returns od world mz (Hm : minimize_contract mz) i0 rest N (w : world) :
  (forall b, in_unit_interval b = true ->
     exists model res,
       fitting od (np_arange (Z.of_nat (length (i0 :: rest)))) b i0 N
         (float_of_nat (length (i0 :: rest))) = inr model /\
       np_sub model (i0 :: rest) = inr res /\ forallb is_finite res = true) ->
  exists r w', main_fit od mz (i0 :: rest) N w = (inr r, w').
Proof.
  intros Hres.
  rewrite main_fit_cons. unfold Model_fit. rewrite box_of_region.
  destruct (mz Powell _ _ w) as [out w''] eqn:E.
  assert (Hret : returns out).
  { change out with (fst (out, w'')). rewrite <- E.
    apply (minimize_returns mz Hm); [reflexivity|].
    intros vals Hin. destruct (in_box_unit vals Hin) as (b & -> & Hb).
    destruct (Hres b Hb) as (model & res & Hf & Hs & Hfin).
    exists res. split; [|exact Hfin].
    unfold residual. rewrite eval_region. cbn [candidate]. rewrite Hf. apply Hs. }
  destruct Hret as [[best ok] ->].
  destruct (in_box_unit best (minimize_in_box mz Hm _ _ _ _ _ _ E)) as (b & -> & Hb).
  destruct (Hres b Hb) as (model & res & Hf & _).
  rewrite bind_inr. cbn [fst snd]. rewrite eval_region. cbn [candidate].
  rewrite Hf, bind_inr. eexists _, _. reflexivity.
Qed.

(** A single finite observation is fitted by itself. *)
Lemma main_fit_singleton od world mz (Ho : odeint_contract od) (Hm : minimize_contract mz)
    i0 N (w : world) :
  is_finite i0 = true ->
  exists r w', main_fit od mz [i0] N w = (inr r, w') /\ best_fit r = [i0].
Proof.
  intros Hfin.
  destruct (main_fit_returns od world mz Hm i0 [] N w) as (r & w' & E).
  { intros b _. exists [i0], [0]. split; [|split].
    - apply (fitting_one_point od Ho).
    - cbn. now rewrite (sub_self i0 Hfin).
    - reflexivity. }
  exists r, w'. split; [exact E|].
  destruct (main_fit_inr od world mz Hm i0 [] N w w' r E) as (b & ok & fit & _ & Hf & ->).
  change (np_arange (Z.of_nat (length [i0]))) with (np_arange 1) in Hf.
  rewrite (fitting_one_point od Ho) in Hf. now injection Hf as <-.
Qed.

(** * The claims *)

(** C2: for a row of observations that starts with [i0] and a population
    [N], [main] builds a table in which [beta] is the only free
    parameter; whatever values the minimiser proposes, [I_0], [N] and
    [num_days] keep the values [main] gave them, and every evaluation of
    the forward model is the integration from the initial state
    [(N - i0, i0, 0)] with the recovery rate [1/7]. *)
Theorem fit_varies_beta_only od (i0 : float) (rest : list float) (N : float) :
  exists params,
    main_params (i0 :: rest) N = inr params /\
    map fst (filter (fun np => vary (snd np)) params) = ["beta"%string] /\
    (forall vals,
       getval "I_0" (assign vals params) = inr i0 /\
       getval "N" (assign vals params) = inr N /\
       getval "num_days" (assign vals params) = inr (float_of_nat (length (i0 :: rest)))) /\
    (forall vals x,
       eval od (assign vals params) x =
       (sol <- od (fun y t => deriv y t (N - i0 + i0 + 0) (candidate vals) (1 / 7))
                  (N - i0, i0, 0) (np_arange (Z.of_nat (length x))) ;;
        ret (col_I sol))).
Proof.
  eexists. split; [apply main_params_cons|]. split; [reflexivity|]. split.
  - intros vals. rewrite assign_region. repeat split.
  - intros vals x. rewrite eval_region. apply fitting_unfold.
Qed.

(** C5, as the code has it: the simulator validates nothing.  For any
    [gamma], zero included, and any initial values, negative ones
    included, it returns the three columns of the integrator's array,
    one entry per day, starting at the values it was given. *)
Theorem Instance_validates_nothing od (H : odeint_contract od)
    beta gamma S_0 I_0 R_0 num_days :
  (1 <= num_days)%Z ->
  exists S_t I_t R_t,
    Instance od beta gamma S_0 I_0 R_0 num_days = inr (S_t, I_t, R_t) /\
    (length S_t = Z.to_nat num_days /\ length I_t = Z.to_nat num_days /\
     length R_t = Z.to_nat num_days) /\
    (hd_error S_t = Some S_0 /\ hd_error I_t = Some I_0 /\ hd_error R_t = Some R_0).
Proof.
  intros Hd.
  destruct (Instance_solution od H beta gamma S_0 I_0 R_0 num_days Hd) as (sol & E & Hlen & Hhd).
  exists (col_S sol), (col_I sol), (col_R sol). split; [exact E|].
  unfold col_S, col_I, col_R. rewrite !length_map, !hd_error_map, Hhd. cbn.
  repeat split; exact Hlen.
Qed.

Lemma Instance_validates_nothing_witness :
  exists S_t I_t R_t,
    Instance euler_odeint 0.5 0 (-8) 8 16 3 = inr (S_t, I_t, R_t) /\
    (length S_t = 3%nat /\ length I_t = 3%nat /\ length R_t = 3%nat) /\
    (hd_error S_t = Some (-8) /\ hd_error I_t = Some 8 /\ hd_error R_t = Some 16).
Proof.
  apply (Instance_validates_nothing euler_odeint euler_odeint_contract 0.5 0 (-8) 8 16 3).
  lia.
Defined.

(** C5, counterexample to the specification's wording: with [gamma = 0],
    and with a negative [S_0], the simulator returns under every
    integrator that honours the interface; under explicit Euler the run
    with [gamma = 0] is the trajectory shown, in which nobody
    recovers. *)
Lemma Instance_accepts_gamma_zero_and_negative_S :
  (forall od, odeint_contract od ->
     returns (Instance od 0.5 0 8 8 0 3) /\
     returns (Instance od 0.5 0.25 (-8) 8 16 3)) /\
  Instance euler_odeint 0.5 0 8 8 0 3 = inr ([8; 6; 4.125], [8; 10; 11.875], [0; 0; 0]).
Proof.
  split.
  - intros od H. split; apply Instance_returns; (assumption || lia).
  - vm_compute. reflexivity.
Qed.

(** C6, as the code has it: an empty row fails with [IndexError], raised
    by [I[0]] before any fit; a row of one finite observation is not
    rejected: the fit runs and returns, and its best fit is that
    observation. *)
Theorem main_fit_short_series od world mz
    (Ho : odeint_contract od) (Hm : minimize_contract mz) N (w : world) :
  main_fit od mz [] N w = (inl IndexError, w) /\
  (forall i0, is_finite i0 = true ->
     exists r w', main_fit od mz [i0] N w = (inr r, w') /\ best_fit r = [i0]).
Proof.
  split; [reflexivity|]. intros i0. now apply main_fit_singleton.
Qed.

Lemma main_fit_short_series_witness :
  main_fit euler_odeint probe_minimize [] 1000 5%Z = (inl IndexError, 5%Z) /\
  exists r w', main_fit euler_odeint probe_minimize [10] 1000 5%Z = (inr r, w') /\
               best_fit r = [10].
Proof.
  destruct (main_fit_short_series euler_odeint Z probe_minimize
              euler_odeint_contract probe_minimize_contract 1000 5%Z) as [Hnil Hone].
  split; [exact Hnil|]. apply Hone. reflexivity.
Defined.

(** C6, counterexample to the specification's wording: the fit of the
    one-point row [[10]] returns under every integrator and minimiser
    that honour their interfaces; under the reference ones the result
    is the one shown. *)
Lemma main_fit_one_observation_returns :
  (forall od world mz, odeint_contract od -> @minimize_contract world mz ->
     forall w, exists r w', main_fit od mz [10] 1000 w = (inr r, w') /\ best_fit r = [10]) /\
  main_fit euler_odeint probe_minimize [10] 1000 5%Z =
    (inr {| values := [("beta"%string, - 0); ("I_0"%string, 10); ("N"%string, 1000);
                       ("num_days"%string, 1)];
            best_fit := [10]; success := true |}, 5%Z).
Proof.
  split.
  - intros od world mz Ho Hm w. now apply main_fit_singleton.
  - vm_compute. reflexivity.
Qed.

(** C7, as the code has it: no population makes the simulator fail.  On
    one day or more it returns, and raises no [ZeroDivisionError], for
    all initial values, those that sum to zero included; with the empty
    population [(0, 0, 0)] the derivatives of S and I are [nan], the
    result of the float division, for every [beta] and [gamma]. *)
Theorem Instance_zero_population_returns od (H : odeint_contract od) beta gamma num_days :
  (1 <= num_days)%Z ->
  (forall S_0 I_0 R_0,
     returns (Instance od beta gamma S_0 I_0 R_0 num_days) /\
     Instance od beta gamma S_0 I_0 R_0 num_days <> inl ZeroDivisionError) /\
  (forall t,
     let '(dSdt, dIdt, _) := deriv (0, 0, 0) t (0 + 0 + 0) beta gamma in
     is_nan dSdt = true /\ is_nan dIdt = true).
Proof.
  intros Hd. split.
  - intros S_0 I_0 R_0.
    pose proof (Instance_returns od H beta gamma S_0 I_0 R_0 num_days Hd) as Hret.
    split; [exact Hret|]. intros E. apply (returns_not_raises _ Hret). now exists ZeroDivisionError.
  - intros t. apply deriv_zero_population_nan.
Qed.

Lemma Instance_zero_population_returns_witness :
  returns (Instance euler_odeint 0.25 (1 / 7) 0 0 0 3) /\
  returns (Instance euler_odeint 0.25 (1 / 7) 990 10 0 3).
Proof.
  destruct (Instance_zero_population_returns euler_odeint euler_odeint_contract
              0.25 (1 / 7) 3) as [Hret _]; [lia|].
  split; apply Hret.
Defined.

(** C7, counterexample to the specification's wording: with
    [S_0 = I_0 = R_0 = 0] the simulator returns under every integrator
    that honours the interface; the derivative at the initial state is
    [(nan, nan, 0)], and under explicit Euler the [nan] values end up
    in the trajectory. *)
Lemma Instance_zero_population_is_nan :
  (forall od, odeint_contract od -> returns (Instance od 0.25 (1 / 7) 0 0 0 3)) /\
  deriv (0, 0, 0) 0 (0 + 0 + 0) 0.25 (1 / 7) = (nan, nan, 0) /\
  Instance euler_odeint 0.25 (1 / 7) 0 0 0 3 =
    inr ([0; nan; nan], [0; nan; nan], [0; 0; nan]).
Proof.
  split; [|split].
  - intros od H. apply Instance_returns; (assumption || lia).
  - vm_compute. reflexivity.
  - vm_compute. reflexivity.
Qed.




(** C10: [fitting] never looks at [num_days]: its outcome is the same
    for every value of it, the trajectory it returns has one entry per
    element of [x], and on a non-empty [x] it does return. *)
Theorem fitting_ignores_num_days od (H : odeint_contract od) x beta I_0 N num_days :
  (forall num_days', fitting od x beta I_0 N num_days' = fitting od x beta I_0 N num_days) /\
  (forall traj, fitting od x beta I_0 N num_days = inr traj -> length traj = length x) /\
  (x <> [] -> returns (fitting od x beta I_0 N num_days)).
Proof.
  split; [reflexivity|]. rewrite fitting_unfold. split.
  - intros traj. destruct (od _ _ _) as [e|sol] eqn:E; [rewrite bind_inl; discriminate|].
    rewrite bind_inr. intros T. injection T as <-. unfold col_I.
    rewrite length_map. etransitivity; [exact (odeint_shape od H _ _ _ _ E)|].
    rewrite np_arange_length. apply Nat2Z.id.
  - intros Hx.
    assert (Hn : (1 <= Z.of_nat (length x))%Z).
    { destruct x; [congruence|]. simpl length. lia. }
    destruct (odeint_returns od H (fun y t => deriv y t (N - I_0 + I_0 + 0) beta (1 / 7))
                (N - I_0, I_0, 0) _ Hn) as [sol E].
    rewrite E. eexists. reflexivity.
Qed.

Lemma fitting_ignores_num_days_witness :
  fitting euler_odeint [0; 1; 2] 0.25 10 1000 365 = fitting euler_odeint [0; 1; 2] 0.25 10 1000 3 /\
  exists traj, fitting euler_odeint [0; 1; 2] 0.25 10 1000 365 = inr traj /\ length traj = 3%nat.
Proof.
  destruct (fitting_ignores_num_days euler_odeint euler_odeint_contract [0; 1; 2] 0.25 10 1000 3)
    as (Hnd & Hlen & Hret).
  split; [apply Hnd|].
  destruct Hret as [traj E]; [discriminate|].
  exists traj. rewrite Hnd. split; [exact E|]. exact (Hlen traj E).
Defined.

(** * Further properties of the code *)

(** ** Signs and fluxes of the derivative *)

Lemma leb_zero_not_negative x : (0 <=? x) = true -> not_negative (Prim2SF x).
Proof.
  rewrite leb_spec. destruct (Prim2SF x) as [s|s| |s m e]; cbn; auto;
    destruct s; auto; discriminate.
Qed.

Lemma ltb_zero_positive x :
  (0 <? x) = true ->
  Prim2SF x = S754_infinity false \/ exists m e, Prim2SF x = S754_finite false m e.
Proof.
  rewrite ltb_spec. destruct (Prim2SF x) as [s|s| |s m e]; cbn; try discriminate;
    destruct s; try discriminate; eauto.
Qed.

Lemma binary_round_aux_not_negative m e l :
  not_negative (binary_round_aux prec emax false m e l).
Proof.
  unfold binary_round_aux.
  destruct (shr_fexp prec emax m e l) as [mrs' e'].
  destruct (shr_fexp prec emax _ e' loc_Exact) as [mrs'' e''].
  destruct (shr_m mrs''); cbn; auto.
  match goal with |- context [if ?c then _ else _] => destruct c end; reflexivity.
Qed.

Lemma SFmul_not_negative x y :
  not_negative x -> not_negative y -> not_negative (SF64mul x y).
Proof.
  unfold SF64mul.
  destruct x as [sx|sx| |sx mx ex], y as [sy|sy| |sy my ey]; cbn; intros Hx Hy; subst;
    try exact I; try reflexivity.
  apply binary_round_aux_not_negative.
Qed.

Lemma SFdiv_not_negative x y :
  not_negative x ->
  (y = S754_infinity false \/ exists m e, y = S754_finite false m e) ->
  not_negative (SF64div x y).
Proof.
  unfold SF64div.
  intros Hx [->|(m & e & ->)]; destruct x as [sx|sx| |sx mx ex]; cbn in Hx; subst;
    cbn [SFdiv xorb]; try exact I; try reflexivity.
  destruct (SFdiv_core_binary prec emax (Z.pos mx) ex (Z.pos m) e) as [[mz ez] lz].
  apply binary_round_aux_not_negative.
Qed.

Lemma not_negative_ltb_zero x : not_negative (Prim2SF x) -> (x <? 0) = false.
Proof.
  rewrite ltb_spec. destruct (Prim2SF x) as [s|s| |s m e]; cbn; intros H; subst;
    reflexivity.
Qed.

Lemma not_negative_opp_ltb x : not_negative (Prim2SF x) -> (0 <? - x) = false.
Proof.
  rewrite ltb_spec, opp_spec. destruct (Prim2SF x) as [s|s| |s m e]; cbn; intros H; subst;
    reflexivity.
Qed.

(** X2: with non-negative compartments and rates and a positive
    population, the derivative of S is never positive and the
    derivative of R is never negative. *)
Theorem deriv_signs S_t I_t R_t t N b g :
  (0 <=? S_t) = true -> (0 <=? I_t) = true -> (0 <? N) = true ->
  (0 <=? b) = true -> (0 <=? g) = true ->
  let '(dSdt, _, dRdt) := deriv (S_t, I_t, R_t) t N b g in
  (0 <? dSdt) = false /\ (dRdt <? 0) = false.
Proof.
  intros HS HI HN Hb Hg. rewrite deriv_fluxes. split.
  - apply not_negative_opp_ltb. rewrite div_spec, !mul_spec.
    apply SFdiv_not_negative; [|now apply ltb_zero_positive].
    repeat apply SFmul_not_negative; now apply leb_zero_not_negative.
  - apply not_negative_ltb_zero. rewrite mul_spec.
    apply SFmul_not_negative; now apply leb_zero_not_negative.
Qed.

Lemma deriv_signs_witness :
  (0 <? fst (fst (deriv (990, 10, 0) 0 1000 0.25 (1 / 7)))) = false /\
  (snd (deriv (990, 10, 0) 0 1000 0.25 (1 / 7)) <? 0) = false.
Proof.
  exact (deriv_signs 990 10 0 0 1000 0.25 (1 / 7)
           eq_refl eq_refl eq_refl eq_refl eq_refl).
Defined.

(** X1: [deriv] is an exchange of two fluxes.  With [x = b*S*I/N] and
    [r = g*I], the derivative of R is [r] and that of I is [x - r];
    the derivative of S, [-b*S*I/N] as the code computes it, is the
    negation of [x], the same number to the last bit, whenever [x] is
    a number, and a [nan] when [x] is a [nan] (the sign and payload of
    a [nan] are not part of the model). *)
Theorem deriv_exchanges_fluxes S_t I_t R_t t N b g :
  let '(dSdt, dIdt, dRdt) := deriv (S_t, I_t, R_t) t N b g in
  dRdt = g * I_t /\
  dIdt = b * S_t * I_t / N - g * I_t /\
  (is_nan (b * S_t * I_t / N) = false ->
   dSdt = - (b * S_t * I_t / N) /\ is_nan dSdt = false) /\
  (is_nan (b * S_t * I_t / N) = true -> is_nan dSdt = true).
Proof.
  rewrite deriv_fluxes.
  assert (Hn : is_nan (- (b * S_t * I_t / N)) = is_nan (b * S_t * I_t / N)).
  { rewrite !is_nan_spec, opp_spec.
    now destruct (Prim2SF (b * S_t * I_t / N)). }
  split; [reflexivity|]. split; [reflexivity|]. split.
  - intros Hx. split; [reflexivity|]. now rewrite Hn.
  - intros Hx. now rewrite Hn.
Qed.

(** X3: without infected, nothing moves: when [I] is a zero, [b*S] and
    [g] are finite and [N] is a number other than zero, the three
    derivatives are zeros. *)
Theorem deriv_without_infected S_t I_t R_t t N b g :
  (I_t =? 0) = true -> is_finite (b * S_t) = true -> is_finite g = true ->
  is_nan N = false -> (N =? 0) = false ->
  let '(dSdt, dIdt, dRdt) := deriv (S_t, I_t, R_t) t N b g in
  (dSdt =? 0) = true /\ (dIdt =? 0) = true /\ (dRdt =? 0) = true.
Proof.
  intros HI Hbs Hg HN HN0. rewrite deriv_fluxes.
  assert (EI : exists s, Prim2SF I_t = S754_zero s).
  { rewrite eqb_spec in HI. destruct (Prim2SF I_t) as [s|s| |s m e]; eauto; try discriminate.
    all: destruct s; discriminate. }
  destruct EI as [si EI].
  assert (Ex : exists s, Prim2SF (b * S_t * I_t / N) = S754_zero s).
  { rewrite div_spec, mul_spec, EI. rewrite eqb_spec in HN0.
    destruct (finite_cases _ Hbs) as [[s ->]|(s & m & e & ->)];
      destruct (not_nan_cases N HN) as [[s'' E]|[[s'' E]|(s'' & m'' & e'' & E)]];
      rewrite E in *; cbn; eauto; destruct s''; discriminate. }
  assert (Er : exists s, Prim2SF (g * I_t) = S754_zero s).
  { rewrite mul_spec, EI.
    destruct (finite_cases _ Hg) as [[s ->]|(s & m & e & ->)]; cbn; eauto. }
  destruct Ex as [sx Ex], Er as [sr Er].
  rewrite !eqb_spec, opp_spec, sub_spec, Ex, Er.
  destruct sx, sr; repeat split.
Qed.

Lemma deriv_without_infected_witness :
  let '(dSdt, dIdt, dRdt) := deriv (1000, 0, 0) 0 1000 0.25 (1 / 7) in
  (dSdt =? 0) = true /\ (dIdt =? 0) = true /\ (dRdt =? 0) = true.
Proof.
  exact (deriv_without_infected 1000 0 0 0 1000 0.25 (1 / 7)
           eq_refl eq_refl eq_refl eq_refl eq_refl).
Defined.

Lemma deriv_beta_zero_witness :
  exists z, (z =? 0) = true /\
            deriv (990, 10, 0) 0 1000 0 (1 / 7) = (- z, z - 1 / 7 * 10, 1 / 7 * 10).
Proof.
  exact (deriv_beta_zero 990 10 0 0 1000 (1 / 7) eq_refl eq_refl eq_refl eq_refl).
Defined.

(** ** More on the forward model and the fit *)

Lemma fitting_head od (H : odeint_contract od) x beta I_0 N num_days :
  x <> [] ->
  exists traj, fitting od x beta I_0 N num_days = inr traj /\ hd_error traj = Some I_0.
Proof.
  intros Hx. rewrite fitting_unfold.
  assert (Hn : (1 <= Z.of_nat (length x))%Z).
  { destruct x; [congruence|]. simpl length. lia. }
  destruct (odeint_returns od H (fun y t => deriv y t (N - I_0 + I_0 + 0) beta (1 / 7))
              (N - I_0, I_0, 0) _ Hn) as [sol E].
  rewrite E, bind_inr. eexists. split; [reflexivity|].
  unfold col_I. rewrite hd_error_map.
  now rewrite (odeint_first od H _ _ _ _ E (np_arange_nonempty _ Hn)).
Qed.

(** X5: on a non-empty [x], [fitting] returns, and the trajectory it
    returns starts at [I_0], whatever [beta] and [N]. *)
Theorem fitting_starts_at_I_0 od (H : odeint_contract od) x beta I_0 N num_days :
  x <> [] ->
  (forall traj, fitting od x beta I_0 N num_days = inr traj -> hd_error traj = Some I_0) /\
  returns (fitting od x beta I_0 N num_days).
Proof.
  intros Hx. destruct (fitting_head od H x beta I_0 N num_days Hx) as (traj & E & Hhd).
  split.
  - intros traj' E'. rewrite E in E'. now injection E' as <-.
  - now exists traj.
Qed.

Lemma fitting_starts_at_I_0_witness :
  exists traj, fitting euler_odeint [0; 1; 2] 0.25 10 1000 3 = inr traj /\
               hd_error traj = Some 10.
Proof.
  destruct (fitting_starts_at_I_0 euler_odeint euler_odeint_contract [0; 1; 2] 0.25 10 1000 3)
    as [Hhd [traj E]]; [discriminate|].
  exists traj. split; [exact E|]. exact (Hhd traj E).
Defined.

(** X6: [fitting] uses [x] for its length only: two time arrays of the
    same length give the same outcome. *)
Theorem fitting_reads_only_the_length od x x' beta I_0 N num_days :
  length x = length x' ->
  fitting od x beta I_0 N num_days = fitting od x' beta I_0 N num_days.
Proof. intros H. rewrite !fitting_unfold. now rewrite H. Qed.

Lemma fitting_reads_only_the_length_witness :
  fitting euler_odeint [0; 1; 2] 0.25 10 1000 3 = fitting euler_odeint [7; 7; 7] 0.25 10 1000 3.
Proof.
  apply (fitting_reads_only_the_length euler_odeint [0; 1; 2] [7; 7; 7]). reflexivity.
Defined.

Lemma np_sub_hd model data res :
  np_sub model data = inr res ->
  hd_error res =
  match hd_error model, hd_error data with
  | Some m, Some d => Some (m - d)
  | _, _ => None
  end.
Proof.
  destruct model as [|m model], data as [|d data]; try discriminate.
  - intros E. now injection E as <-.
  - change (np_sub (m :: model) (d :: data))
      with (r <- np_sub model data ;; (ret ((m - d) :: r) : py (list float))).
    destruct (np_sub model data) as [e|r]; [rewrite bind_inl; discriminate|].
    rewrite bind_inr. intros E. now injection E as <-.
Qed.

(** X7: for a finite first observation, the first entry of model minus
    data is zero for every [beta]: the residual of day 0 adds nothing
    to the sum of squares. *)
Theorem first_residual_is_zero od (H : odeint_contract od) i0 rest beta N num_days model res :
  is_finite i0 = true ->
  fitting od (np_arange (Z.of_nat (length (i0 :: rest)))) beta i0 N num_days = inr model ->
  np_sub model (i0 :: rest) = inr res ->
  hd_error res = Some 0.
Proof.
  intros Hfin Hf Hs.
  destruct (fitting_head od H (np_arange (Z.of_nat (length (i0 :: rest))))
              beta i0 N num_days) as (traj & E & Hhd).
  { apply np_arange_nonempty. simpl length. lia. }
  rewrite Hf in E. injection E as <-.
  rewrite (np_sub_hd _ _ _ Hs), Hhd. cbn. now rewrite sub_self.
Qed.

Lemma first_residual_is_zero_witness :
  exists model res,
    fitting euler_odeint (np_arange 2) 0.25 10 1000 2 = inr model /\
    np_sub model [10; 12] = inr res /\
    hd_error res = Some 0.
Proof.
  eexists. eexists. split; [vm_compute; reflexivity|]. split; [vm_compute; reflexivity|].
  eapply (first_residual_is_zero euler_odeint euler_odeint_contract 10 [12] 0.25 1000 2);
    [reflexivity | vm_compute; reflexivity | vm_compute; reflexivity].
Defined.

Lemma fitting_inr_shape od (H : odeint_contract od) x beta I_0 N num_days traj :
  fitting od x beta I_0 N num_days = inr traj ->
  length traj = length x /\ (x <> [] -> hd_error traj = Some I_0).
Proof.
  rewrite fitting_unfold.
  destruct (od _ _ _) as [e|sol] eqn:E; [rewrite bind_inl; discriminate|].
  rewrite bind_inr. intros T. injection T as <-. unfold col_I. split.
  - rewrite length_map. etransitivity; [exact (odeint_shape od H _ _ _ _ E)|].
    rewrite np_arange_length. apply Nat2Z.id.
  - intros Hx. rewrite hd_error_map.
    assert (Hne : np_arange (Z.of_nat (length x)) <> []).
    { apply np_arange_nonempty. destruct x; [congruence|]. simpl length. lia. }
    now rewrite (odeint_first od H _ _ _ _ E Hne).
Qed.

(** X8: a fit that returns reports, in this order, [beta], then [I_0],
    [N] and [num_days] with the values [main] gave them: the first
    observation, the population and the number of observations. *)
Theorem main_fit_reports_fixed_values od world mz (Hm : minimize_contract mz)
    i0 rest N (w w' : world) r :
  main_fit od mz (i0 :: rest) N w = (inr r, w') ->
  exists b,
    values r = [("beta"%string, b); ("I_0"%string, i0); ("N"%string, N);
                ("num_days"%string, float_of_nat (length (i0 :: rest)))].
Proof.
  intros E.
  destruct (main_fit_inr od world mz Hm i0 rest N w w' r E) as (b & ok & fit & _ & _ & ->).
  now exists b.
Qed.

Lemma main_fit_reports_fixed_values_witness :
  exists r w' b,
    main_fit euler_odeint probe_minimize [8; 12; 9] 16 5%Z = (inr r, w') /\
    values r = [("beta"%string, b); ("I_0"%string, 8); ("N"%string, 16);
                ("num_days"%string, float_of_nat 3)].
Proof.
  destruct (main_fit euler_odeint probe_minimize [8; 12; 9] 16 5%Z) as [[e|r] w'] eqn:E;
    [vm_compute in E; discriminate|].
  destruct (main_fit_reports_fixed_values euler_odeint Z probe_minimize
              probe_minimize_contract 8 [12; 9] 16 5%Z w' r E) as [b Hb].
  now exists r, w', b.
Defined.

(** X9: the best-fit curve of a fit that returns has one value per
    observation and starts at the first observation. *)
Theorem main_fit_curve od world mz (Ho : odeint_contract od) (Hm : minimize_contract mz)
    i0 rest N (w w' : world) r :
  main_fit od mz (i0 :: rest) N w = (inr r, w') ->
  length (best_fit r) = length (i0 :: rest) /\ hd_error (best_fit r) = Some i0.
Proof.
  intros E.
  destruct (main_fit_inr od world mz Hm i0 rest N w w' r E) as (b & ok & fit & _ & Hf & ->).
  cbn [best_fit].
  destruct (fitting_inr_shape od Ho _ _ _ _ _ _ Hf) as [Hlen Hhd].
  split.
  - rewrite Hlen, np_arange_length. apply Nat2Z.id.
  - apply Hhd. apply np_arange_nonempty. simpl length. lia.
Qed.

Lemma main_fit_curve_witness :
  exists r w',
    main_fit euler_odeint probe_minimize [8; 12; 9] 16 5%Z = (inr r, w') /\
    length (best_fit r) = 3%nat /\ hd_error (best_fit r) = Some 8.
Proof.
  destruct (main_fit euler_odeint probe_minimize [8; 12; 9] 16 5%Z) as [[e|r] w'] eqn:E;
    [vm_compute in E; discriminate|].
  exists r, w'. split; [reflexivity|].
  exact (main_fit_curve euler_odeint Z probe_minimize euler_odeint_contract
           probe_minimize_contract 8 [12; 9] 16 5%Z w' r E).
Defined.

(** ** The loop of [main] *)

Lemma getitem_inr {A} (l : list A) k a : getitem l k = inr a <-> nth_error l k = Some a.
Proof.
  unfold getitem. destruct (nth_error l k); cbn; split; intros H; try discriminate;
    now injection H as ->.
Qed.

Lemma getitem_out_of_range {A} (l : list A) k : (length l <= k)%nat -> getitem l k = inl IndexError.
Proof.
  intros H. unfold getitem. now rewrite (proj2 (nth_error_None l k) H).
Qed.

(** Reading row 4 for [days] changes nothing: the row exists whenever
    the row of the region does. *)
Lemma region_input_row rows i :
  region_input rows i =
  match nth_error rows (6 + i) with
  | None => inl IndexError
  | Some row =>
      state <- getitem row 0 ;;
      N <- population state ;;
      ret (slice 1 366 row, N)
  end.
Proof.
  unfold region_input.
  destruct (nth_error rows (6 + i)) as [row|] eqn:E.
  2:{ rewrite getitem_out_of_range by (now apply nth_error_None). now rewrite bind_inl. }
  rewrite (proj2 (getitem_inr _ _ _) E), bind_inr.
  assert (H4 : exists row4, nth_error rows 4 = Some row4).
  { destruct (nth_error rows 4) as [row4|] eqn:E4; [now exists row4|].
    apply nth_error_None in E4.
    assert (6 + i < length rows)%nat by (apply nth_error_Some; congruence). lia. }
  destruct H4 as [row4 E4].
  destruct (getitem row 0) as [e|state]; [reflexivity|]. rewrite !bind_inr.
  destruct (population state) as [e|N]; [reflexivity|]. rewrite !bind_inr.
  now rewrite (proj2 (getitem_inr _ _ _) E4), bind_inr.
Qed.

Lemma slice_firstn {A} (row : list A) : slice 1 366 (firstn 366 row) = slice 1 366 row.
Proof.
  unfold slice. rewrite skipn_firstn_comm, firstn_firstn. reflexivity.
Qed.

Lemma region_input_view rows rows' i :
  region_view rows i = region_view rows' i -> region_input rows i = region_input rows' i.
Proof.
  unfold region_view. rewrite !region_input_row.
  destruct (nth_error rows (6 + i)) as [row|], (nth_error rows' (6 + i)) as [row'|];
    cbn [option_map]; intros H; try discriminate; [|reflexivity].
  assert (Hf : firstn 366 row = firstn 366 row').
  { remember (firstn 366 row) as a. remember (firstn 366 row') as b. now injection H. }
  assert (H0 : getitem row 0 = getitem row' 0).
  { unfold getitem.
    change (nth_error row 0) with (if (0 <? 366)%nat then nth_error row 0 else None).
    change (nth_error row' 0) with (if (0 <? 366)%nat then nth_error row' 0 else None).
    now rewrite <- !nth_error_firstn, Hf. }
  rewrite <- (slice_firstn row), <- (slice_firstn row'), Hf, H0. reflexivity.
Qed.

Lemma main_region_view od world mz rows rows' i (w : world) :
  region_view rows i = region_view rows' i ->
  main_region od mz rows i w = main_region od mz rows' i w.
Proof. intros H. unfold main_region. now rewrite (region_input_view rows rows' i H). Qed.

Lemma main_loop_view od world mz rows rows' todo :
  Forall (fun i => region_view rows i = region_view rows' i) todo ->
  forall w : world, main_loop od mz rows todo w = main_loop od mz rows' todo w.
Proof.
  induction 1 as [|i todo Hi _ IH]; intros w; [reflexivity|].
  cbn [main_loop]. rewrite (main_region_view od world mz rows rows' i w Hi).
  destruct (main_region od mz rows' i w) as [[r|e|] w']; [|reflexivity|reflexivity].
  now rewrite IH.
Qed.

(** X10: [main] sees of the sheet only the first 366 cells of rows 6, 7
    and 8: two sheets that agree there give the same run. *)
Theorem main_reads_three_rows od world mz rows rows' (w : world) :
  (forall i, (i < 3)%nat -> region_view rows i = region_view rows' i) ->
  main od mz rows w = main od mz rows' w.
Proof.
  intros H. unfold main. apply main_loop_view.
  repeat constructor; apply H; lia.
Qed.

Lemma main_reads_three_rows_witness :
  main euler_odeint probe_minimize sample_sheet 5%Z =
  main euler_odeint probe_minimize
    ([[Text "x"]; []; []; []; []; [Blank];
      [Text "Bayern"; Number 10; Number 12];
      [Text "Berlin"; Number 5; Number 6];
      [Text "Brandenburg"; Number 3; Number 3];
      [Text "Hessen"; Number 1]]) 5%Z.
Proof.
  apply (main_reads_three_rows euler_odeint Z probe_minimize).
  intros [|[|[|i]]] Hi; try reflexivity. lia.
Defined.

Lemma main_loop_count od world mz rows todo (w : world) :
  (length (snd (fst (main_loop od mz rows todo w))) <= length todo)%nat /\
  (fst (fst (main_loop od mz rows todo w)) = Completed <->
   length (snd (fst (main_loop od mz rows todo w))) = length todo).
Proof.
  revert w. induction todo as [|i todo IH]; intros w; cbn [main_loop].
  - cbn. split; [lia|]. split; reflexivity.
  - destruct (main_region od mz rows i w) as [[r|e|] w'].
    + specialize (IH w'). destruct (main_loop od mz rows todo w') as [[e printed] w''].
      cbn [fst snd length] in *. destruct IH as [Hle Hiff]. split; [lia|].
      rewrite Hiff. split; lia.
    + cbn. split; [lia|]. split; discriminate.
    + cbn. split; [lia|]. split; discriminate.
Qed.

(** X11: [main] prints the values of each region it has fitted, three
    at most, and exactly three when it completes. *)
Theorem main_prints_one_result_per_region od world mz rows (w : world) :
  (length (snd (fst (main od mz rows w))) <= 3)%nat /\
  (fst (fst (main od mz rows w)) = Completed <-> length (snd (fst (main od mz rows w))) = 3%nat).
Proof. exact (main_loop_count od world mz rows (seq 0 3) w). Qed.

Lemma main_region_fitted_row od world mz rows i (w w' : world) r :
  main_region od mz rows i w = (Fitted r, w') -> (6 + i < length rows)%nat.
Proof.
  unfold main_region. rewrite region_input_row.
  destruct (nth_error rows (6 + i)) as [row|] eqn:E; [|discriminate].
  intros _. apply nth_error_Some. congruence.
Qed.

Lemma main_loop_completed od world mz rows todo (w : world) :
  fst (fst (main_loop od mz rows todo w)) = Completed ->
  Forall (fun i => (6 + i < length rows)%nat) todo.
Proof.
  revert w. induction todo as [|i todo IH]; intros w; [constructor|].
  cbn [main_loop].
  destruct (main_region od mz rows i w) as [[r|e|] w'] eqn:E; try discriminate.
  specialize (IH w'). destruct (main_loop od mz rows todo w') as [[e printed] w''].
  cbn [fst] in *. intros He. constructor; [|now apply IH].
  exact (main_region_fitted_row od world mz rows i w w' r E).
Qed.

(** X12: on a sheet of fewer than nine rows [main] does not complete;
    on one of six rows or fewer it fails with [IndexError] before it
    fits or prints anything. *)
Theorem main_needs_nine_rows od world mz rows (w : world) :
  (length rows < 9)%nat ->
  fst (fst (main od mz rows w)) <> Completed /\
  ((length rows <= 6)%nat -> main od mz rows w = (Failed IndexError, [], w)).
Proof.
  intros Hlen. split.
  - intros Hc. apply main_loop_completed in Hc.
    rewrite Forall_forall in Hc. specialize (Hc 2%nat).
    assert (6 + 2 < length rows)%nat by (apply Hc; cbn; auto). lia.
  - intros H6. unfold main. cbn [seq main_loop]. unfold main_region.
    rewrite region_input_row.
    now rewrite (proj2 (nth_error_None rows (6 + 0)%nat) H6).
Qed.

Lemma main_needs_nine_rows_witness :
  fst (fst (main euler_odeint probe_minimize (firstn 8 sample_sheet) 5%Z)) <> Completed /\
  main euler_odeint probe_minimize (firstn 6 sample_sheet) 5%Z = (Failed IndexError, [], 5%Z).
Proof.
  split.
  - apply (main_needs_nine_rows euler_odeint Z probe_minimize (firstn 8 sample_sheet) 5%Z).
    cbn. lia.
  - apply (main_needs_nine_rows euler_odeint Z probe_minimize (firstn 6 sample_sheet) 5%Z);
      cbn; lia.
Defined.

Lemma population_unknown c :
  c <> Text "Bayern" -> c <> Text "Berlin" -> c <> Text "Brandenburg" ->
  population c = inl KeyError.
Proof.
  intros H1 H2 H3. destruct c as [s|v|]; [|reflexivity|reflexivity].
  unfold population. cbn [assoc].
  destruct (String.eqb_spec s "Bayern") as [->|_]; [congruence|].
  destruct (String.eqb_spec s "Berlin") as [->|_]; [congruence|].
  destruct (String.eqb_spec s "Brandenburg") as [->|_]; [congruence|].
  reflexivity.
Qed.

Lemma population_known c N :
  population c = inr N ->
  (c = Text "Bayern" /\ N = 13076721) \/ (c = Text "Berlin" /\ N = 3748148) \/
  (c = Text "Brandenburg" /\ N = 2511917).
Proof.
  destruct c as [s|v|]; [|discriminate|discriminate].
  unfold population. cbn [assoc].
  destruct (String.eqb_spec s "Bayern") as [->|_].
  { intros H. injection H as <-. now left. }
  destruct (String.eqb_spec s "Berlin") as [->|_].
  { intros H. injection H as <-. right. now left. }
  destruct (String.eqb_spec s "Brandenburg") as [->|_].
  { intros H. injection H as <-. right. now right. }
  discriminate.
Qed.

(** X13: when the first cell of row 6 is none of the three region
    names, an empty cell included, [main] fails with [KeyError], and
    nothing is fitted or printed. *)
Theorem main_rejects_unknown_region od world mz rows c cells (w : world) :
  nth_error rows 6 = Some (c :: cells) ->
  c <> Text "Bayern" -> c <> Text "Berlin" -> c <> Text "Brandenburg" ->
  main od mz rows w = (Failed KeyError, [], w).
Proof.
  intros E H1 H2 H3. unfold main. cbn [seq main_loop]. unfold main_region.
  rewrite region_input_row. change (6 + 0)%nat with 6%nat. rewrite E.
  change (getitem (c :: cells) 0) with (inr c : py cell). rewrite bind_inr.
  now rewrite (population_unknown c H1 H2 H3), bind_inl.
Qed.

Lemma main_rejects_unknown_region_witness :
  main euler_odeint probe_minimize
    [[Blank]; [Blank]; [Blank]; [Blank]; [Blank]; [Blank];
     [Text "Hessen"; Number 10; Number 12]] 5%Z = (Failed KeyError, [], 5%Z) /\
  main euler_odeint probe_minimize
    [[Blank]; [Blank]; [Blank]; [Blank]; [Blank]; [Blank];
     [Blank; Blank; Blank]] 5%Z = (Failed KeyError, [], 5%Z).
Proof.
  split.
  - apply (main_rejects_unknown_region euler_odeint Z probe_minimize _
             (Text "Hessen") [Number 10; Number 12] 5%Z);
      [reflexivity | discriminate | discriminate | discriminate].
  - apply (main_rejects_unknown_region euler_odeint Z probe_minimize _
             Blank [Blank; Blank] 5%Z);
      [reflexivity | discriminate | discriminate | discriminate].
Defined.

Lemma numbers_length cells obs : numbers cells = Some obs -> length obs = length cells.
Proof.
  revert obs. induction cells as [|c cells IH]; intros obs; cbn [numbers].
  - intros H. now injection H as <-.
  - destruct c as [s|v|]; try discriminate.
    destruct (numbers cells) as [obs'|]; cbn [option_map]; [|discriminate].
    intros H. injection H as <-. cbn [length]. now rewrite (IH obs' eq_refl).
Qed.

Lemma slice_length {A} (row : list A) : (length (slice 1 366 row) <= 365)%nat.
Proof. unfold slice. rewrite length_firstn. change (366 - 1)%nat with 365%nat. lia. Qed.

Lemma main_fit_nil od world mz N (w : world) : main_fit od mz [] N w = (inl IndexError, w).
Proof. reflexivity. Qed.

(** X14: a region that has been fitted comes from a row whose first
    cell is one of the three names and whose cells 1 to 365 are
    numbers, at least one; it reports [beta] within [0, 1], the first
    observation, the population of the name and the number of
    observations, 365 at most. *)
Theorem main_region_reports od world mz (Hm : minimize_contract mz) rows i (w w' : world) r :
  main_region od mz rows i w = (Fitted r, w') ->
  exists row c N i0 rest b,
    nth_error rows (6 + i) = Some row /\ nth_error row 0 = Some c /\
    population c = inr N /\
    numbers (slice 1 366 row) = Some (i0 :: rest) /\
    (length (i0 :: rest) <= 365)%nat /\
    in_unit_interval b = true /\
    values r = [("beta"%string, b); ("I_0"%string, i0); ("N"%string, N);
                ("num_days"%string, float_of_nat (length (i0 :: rest)))].
Proof.
  unfold main_region. rewrite region_input_row.
  destruct (nth_error rows (6 + i)) as [row|] eqn:E; [|discriminate].
  destruct (getitem row 0) as [e|c] eqn:Ec; [rewrite bind_inl; discriminate|].
  rewrite bind_inr.
  destruct (population c) as [e|N] eqn:EN; [rewrite bind_inl; discriminate|].
  rewrite bind_inr. change (ret (slice 1 366 row, N)) with (inr (slice 1 366 row, N) : py _).
  cbv iota beta.
  destruct (numbers (slice 1 366 row)) as [obs|] eqn:Eo; [|discriminate].
  destruct (main_fit od mz obs N w) as [[e|r'] w''] eqn:Ef; [discriminate|].
  intros H. injection H as <- <-.
  destruct obs as [|i0 rest]; [rewrite main_fit_nil in Ef; discriminate|].
  destruct (main_fit_inr od world mz Hm i0 rest N w w'' r' Ef) as (b & ok & fit & Hb & _ & ->).
  exists row, c, N, i0, rest, b. repeat split; auto.
  - now apply getitem_inr.
  - rewrite (numbers_length _ _ Eo). apply slice_length.
Qed.

Lemma main_region_reports_witness :
  exists r w' b,
    main_region euler_odeint probe_minimize sample_sheet 1 5%Z = (Fitted r, w') /\
    in_unit_interval b = true /\
    values r = [("beta"%string, b); ("I_0"%string, 5); ("N"%string, 3748148);
                ("num_days"%string, float_of_nat 2)].
Proof.
  destruct (main_region euler_odeint probe_minimize sample_sheet 1 5%Z) as [[r|e|] w'] eqn:E;
    [|vm_compute in E; discriminate|vm_compute in E; discriminate].
  destruct (main_region_reports euler_odeint Z probe_minimize probe_minimize_contract
              sample_sheet 1 5%Z w' r E)
    as (row & c & N & i0 & rest & b & Hrow & Hc & HN & Hobs & _ & Hb & Hv).
  injection Hrow as <-. injection Hc as <-. injection HN as <-.
  vm_compute in Hobs. injection Hobs as <- <-.
  now exists r, w', b.
Defined.

(** X15: a row that holds a region's name and no observation fails with
    [IndexError], and no fit is run. *)
Theorem main_region_without_observations od world mz rows i c N (w : world) :
  nth_error rows (6 + i) = Some [c] -> population c = inr N ->
  main_region od mz rows i w = (Raised IndexError, w).
Proof.
  intros E EN. unfold main_region. rewrite region_input_row, E.
  change (getitem [c] 0) with (inr c : py cell). rewrite bind_inr, EN, bind_inr.
  reflexivity.
Qed.

Lemma main_region_without_observations_witness :
  main_region euler_odeint probe_minimize
    [[]; []; []; []; []; []; [Text "Berlin"]] 0 5%Z = (Raised IndexError, 5%Z).
Proof.
  exact (main_region_without_observations euler_odeint Z probe_minimize
           [[]; []; []; []; []; []; [Text "Berlin"]] 0 (Text "Berlin") 3748148 5%Z
           eq_refl eq_refl).
Defined.
